(** * The dishwasher technician agent's graph tools (agent.py)

    A shallow embedding of [Neo4jTool] and of the six tool functions that
    agent.py registers with the agent, followed by the properties of the
    access layer that the design document states about them.

    Python's exceptions are the left summand of a sum type, the graph store
    is an abstract state machine behind [Neo4jGraph.query], and every call
    of [query] is recorded in a log, so that "issues no query" and "issues
    exactly one query" are statements about that log. *)

From Stdlib Require Import String Ascii List ZArith Bool Lia Permutation.
Import ListNotations.

Set Warnings "-register-all".

Local Open Scope string_scope.
Local Open Scope list_scope.

(** ** Python values, exceptions and dictionaries *)

Module Py.

(** The values a row of [Neo4jGraph.query] can hold: [None], integers,
    strings, lists and string-keyed dictionaries (a node comes back as the
    dictionary of its properties). *)
Inductive value : Type :=
| VNone
| VInt (z : Z)
| VStr (s : string)
| VList (l : list value)
| VDict (d : list (string * value)).

Inductive exn : Type :=
| ValueError (msg : string)
| KeyError (key : string)
| TypeError (msg : string)
| ValidationError (model : string)
| DriverError (msg : string).

Definition result (A : Type) : Type := (exn + A)%type.

Definition ok {A} (a : A) : result A := inr a.
Definition raise {A} (e : exn) : result A := inl e.

Definition bind {A B} (c : result A) (k : A -> result B) : result B :=
  match c with
  | inl e => inl e
  | inr a => k a
  end.

(** A [dict] with string keys: the first binding of a key is the one that
    counts. *)
Definition dict (V : Type) : Type := list (string * V).

Fixpoint dict_get {V} (d : dict V) (k : string) : option V :=
  match d with
  | [] => None
  | (k', v) :: d' => if String.eqb k' k then Some v else dict_get d' k
  end.

(** [d[k]] *)
Definition getitem (d : dict value) (k : string) : result value :=
  match dict_get d k with
  | Some v => ok v
  | None => raise (KeyError k)
  end.

(** [d.get(k)], whose default is [None] *)
Definition get (d : dict value) (k : string) : value :=
  match dict_get d k with
  | Some v => v
  | None => VNone
  end.

(** [not x] for the result of a [.get] on a dictionary of strings *)
Definition not_ (x : option string) : bool :=
  match x with
  | None => true
  | Some s => String.eqb s EmptyString
  end.

(** [f"{x}"] for the same *)
Definition format (x : option string) : string :=
  match x with
  | None => "None"
  | Some s => s
  end.

(** Only [None], integers and strings can be keys of a dictionary. *)
Definition hash (v : value) : result unit :=
  match v with
  | VList _ => raise (TypeError "unhashable type: 'list'")
  | VDict _ => raise (TypeError "unhashable type: 'dict'")
  | _ => ok tt
  end.

(** [==] on keys *)
Definition key_eqb (a b : value) : bool :=
  match a, b with
  | VNone, VNone => true
  | VInt x, VInt y => Z.eqb x y
  | VStr x, VStr y => String.eqb x y
  | _, _ => false
  end.

(** A dictionary with arbitrary hashable keys, in insertion order. *)
Definition kdict (V : Type) : Type := list (value * V).

Fixpoint lookup {V} (d : kdict V) (k : value) : option V :=
  match d with
  | [] => None
  | (k', v) :: d' => if key_eqb k' k then Some v else lookup d' k
  end.

(** [d.setdefault(k, dflt)]: the dictionary afterwards.  The value the call
    returns is the one now bound to [k]. *)
Fixpoint setdefault {V} (d : kdict V) (k : value) (dflt : V) : kdict V :=
  match d with
  | [] => [(k, dflt)]
  | (k', v) :: d' =>
      if key_eqb k' k then d else (k', v) :: setdefault d' k dflt
  end.

(** [.append(x)] on the list bound to [k]: that list is the dictionary's
    own object, so the dictionary sees the new element. *)
Fixpoint append_at {V} (d : kdict (list V)) (k : value) (x : V)
  : kdict (list V) :=
  match d with
  | [] => []
  | (k', l) :: d' =>
      if key_eqb k' k then (k', l ++ [x]) :: d'
      else (k', l) :: append_at d' k x
  end.

(** [[f(r) for r in rows]], stopping at the first exception *)
Fixpoint comprehension {A B} (f : A -> result B) (rows : list A)
  : result (list B) :=
  match rows with
  | [] => ok []
  | r :: rows' =>
      bind (f r) (fun b =>
      bind (comprehension f rows') (fun bs => ok (b :: bs)))
  end.

(** [for r in rows: acc = body(acc, r)], stopping at the first exception *)
Fixpoint for_each {A S} (body : S -> A -> result S) (rows : list A) (acc : S)
  : result S :=
  match rows with
  | [] => ok acc
  | r :: rows' => bind (body acc r) (for_each body rows')
  end.

End Py.

Import Py.

Notation "x <- c ;; k" := (Py.bind c (fun x => k))
  (at level 61, c at next level, right associativity).

(** ** Pydantic models *)

(** A [str] field takes a string and nothing else: [None] is refused, and
    so are numbers (pydantic 2, the one google-adk depends on, does not turn
    them into strings).  An [Optional[str]] field takes [None] as well.  A
    refused value raises the model's [ValidationError]. *)
Definition validate_str (model : string) (v : value) : result string :=
  match v with
  | VStr s => ok s
  | _ => raise (ValidationError model)
  end.

Definition validate_optional_str (model : string) (v : value)
  : result (option string) :=
  match v with
  | VNone => ok None
  | VStr s => ok (Some s)
  | _ => raise (ValidationError model)
  end.

Record Action : Type := { Action_name : string }.

Record ECode : Type :=
  { ECode_code : string; ECode_description : option string }.

Record ProblemScenario : Type := { ProblemScenario_description : string }.

Record Symptom : Type := { Symptom_name : string }.

(** The constructors [Action(name=...)], [ECode(code=..., description=...)],
    [ProblemScenario(description=...)] and [Symptom(name=...)]. *)
Definition new_Action (name : value) : result Action :=
  s <- validate_str "Action" name ;;
  ok {| Action_name := s |}.

Definition new_ECode (code description : value) : result ECode :=
  c <- validate_str "ECode" code ;;
  d <- validate_optional_str "ECode" description ;;
  ok {| ECode_code := c; ECode_description := d |}.

Definition new_ProblemScenario (description : value) : result ProblemScenario :=
  s <- validate_str "ProblemScenario" description ;;
  ok {| ProblemScenario_description := s |}.

Definition new_Symptom (name : value) : result Symptom :=
  s <- validate_str "Symptom" name ;;
  ok {| Symptom_name := s |}.

(** ** Rows, queries and the neighbour mapping *)

Definition row : Type := dict value.
Definition params : Type := dict value.

(** One neighbour: [{"labels": ..., "properties": ...}] *)
Record descriptor : Type := { labels : value; properties : value }.

Definition neighbors_map : Type := kdict (list descriptor).

Definition LF : string := String "010"%char EmptyString.

Definition actions_query : string :=
  "MATCH (a:Action) RETURN a.name AS name".
Definition error_codes_query : string :=
  "MATCH (e:ECode) RETURN e.code AS code, e.description AS description".
Definition problem_scenarios_query : string :=
  "MATCH (p:ProblemScenario) RETURN p.description AS description".
Definition symptoms_query : string :=
  "MATCH (s:Symptom) RETURN s.name AS name".

(** The table of [get_neighbors] *)
Definition property_keys : dict string :=
  [ ("Action", "name");
    ("ECode", "code");
    ("ProblemScenario", "description");
    ("Symptom", "name") ].

(** The f-string of [get_neighbors] *)
Definition neighbors_query (label : string) (property_key : option string)
  : string :=
  LF ++ "        MATCH (n:" ++ label ++ " {" ++ format property_key
     ++ ": $identifier})-[r]-(m)"
  ++ LF ++ "        RETURN type(r) AS rel_type, labels(m) AS node_labels, m AS node"
  ++ LF ++ "        ".

(** The bodies of the four comprehensions *)
Definition action_of_row (r : row) : result Action :=
  name <- getitem r "name" ;;
  new_Action name.

Definition ecode_of_row (r : row) : result ECode :=
  code <- getitem r "code" ;;
  new_ECode code (get r "description").

Definition problem_scenario_of_row (r : row) : result ProblemScenario :=
  description <- getitem r "description" ;;
  new_ProblemScenario description.

Definition symptom_of_row (r : row) : result Symptom :=
  name <- getitem r "name" ;;
  new_Symptom name.

(** The body of the loop of [get_neighbors].  [setdefault] runs before the
    argument of [append] is built. *)
Definition add_neighbor (neighbors : neighbors_map) (record : row)
  : result neighbors_map :=
  rel_type <- getitem record "rel_type" ;;
  _ <- hash rel_type ;;
  let neighbors' := setdefault neighbors rel_type [] in
  node_labels <- getitem record "node_labels" ;;
  node <- getitem record "node" ;;
  ok (append_at neighbors' rel_type
        {| labels := node_labels; properties := node |}).

(** ** The tool, over an abstract graph store *)

Section Tool.

(** The store behind [Neo4jGraph]: a state, and what a query (text and
    bound parameters) answers and does to it.  The answer is a list of rows
    or an exception. *)
Context {db : Type}.
Variable run : string -> params -> db -> result (list row) * db.

(** The store together with the log of the queries sent to it *)
Record world : Type := { graph : db; sent : list (string * params) }.

(** Computations that may query the store and may raise *)
Definition M (A : Type) : Type := world -> result A * world.

Definition lift {A} (c : result A) : M A := fun w => (c, w).

Definition mbind {A B} (c : M A) (k : A -> M B) : M B :=
  fun w =>
    match c w with
    | (inl e, w') => (inl e, w')
    | (inr a, w') => k a w'
    end.

(** [self.graph.query(query, params)] *)
Definition graph_query (query : string) (p : params) : M (list row) :=
  fun w =>
    let (r, g) := run query p (graph w) in
    (r, {| graph := g; sent := sent w ++ [(query, p)] |}).

Definition get_all_actions : M (list Action) :=
  mbind (graph_query actions_query []) (fun results =>
  lift (comprehension action_of_row results)).

Definition get_all_error_codes : M (list ECode) :=
  mbind (graph_query error_codes_query []) (fun results =>
  lift (comprehension ecode_of_row results)).

Definition get_all_problem_scenarios : M (list ProblemScenario) :=
  mbind (graph_query problem_scenarios_query []) (fun results =>
  lift (comprehension problem_scenario_of_row results)).

Definition get_all_symptoms : M (list Symptom) :=
  mbind (graph_query symptoms_query []) (fun results =>
  lift (comprehension symptom_of_row results)).

Definition get_neighbors (label identifier : string) : M neighbors_map :=
  let property_key := dict_get property_keys label in
  if not_ property_key then
    lift (raise (ValueError ("Unknown label: " ++ label)))
  else
    let query := neighbors_query label property_key in
    mbind (graph_query query [("identifier", VStr identifier)])
      (fun results => lift (for_each add_neighbor results [])).

(** The functions wrapped as tools *)
Definition possible_actions_list : M (list Action) := get_all_actions.
Definition possible_error_codes_list : M (list ECode) := get_all_error_codes.
Definition possible_scenarios_list : M (list ProblemScenario) :=
  get_all_problem_scenarios.
Definition possible_symptom_list : M (list Symptom) := get_all_symptoms.

Definition get_entity_neighbors (label identifier : string)
  : M neighbors_map :=
  get_neighbors label identifier.

Definition propose_correct_action (correct_action : string) : M Action :=
  lift (new_Action (VStr correct_action)).

End Tool.

Arguments world : clear implicits.
Arguments M : clear implicits.

(** ** The tools of the agent *)

(** A call of one of the six functions that [root_agent] lists as its
    tools, with its arguments, and what such a call returns. *)
Inductive tool_call : Type :=
| Call_possible_actions_list
| Call_possible_error_codes_list
| Call_possible_scenarios_list
| Call_possible_symptom_list
| Call_get_entity_neighbors (label identifier : string)
| Call_propose_correct_action (correct_action : string).

Inductive tool_value : Type :=
| Actions (l : list Action)
| ECodes (l : list ECode)
| ProblemScenarios (l : list ProblemScenario)
| Symptoms (l : list Symptom)
| Neighbors (m : neighbors_map)
| Proposal (a : Action).

Section Calls.

Context {db : Type}.
Variable run : string -> params -> db -> result (list row) * db.

Definition returning {A} (tag : A -> tool_value) (c : M db A)
  : M db tool_value :=
  mbind c (fun a => lift (ok (tag a))).

Definition invoke (c : tool_call) : M db tool_value :=
  match c with
  | Call_possible_actions_list =>
      returning Actions (possible_actions_list run)
  | Call_possible_error_codes_list =>
      returning ECodes (possible_error_codes_list run)
  | Call_possible_scenarios_list =>
      returning ProblemScenarios (possible_scenarios_list run)
  | Call_possible_symptom_list =>
      returning Symptoms (possible_symptom_list run)
  | Call_get_entity_neighbors label identifier =>
      returning Neighbors (get_entity_neighbors run label identifier)
  | Call_propose_correct_action correct_action =>
      returning Proposal (propose_correct_action correct_action)
  end.

(** Calls made one after the other on the one [neo_tool] of the module:
    each call finds the store as the call before left it, whether that
    call returned or raised. *)
Fixpoint calls (cs : list tool_call) (w : world db)
  : list (result tool_value) * world db :=
  match cs with
  | [] => ([], w)
  | c :: cs' =>
      let (r, w1) := invoke c w in
      let (rs, w2) := calls cs' w1 in
      (r :: rs, w2)
  end.

End Calls.

(** ** A store for examples *)

(** A store that replays prepared answers, one per query, whatever the query
    is; once they are used up it answers with no rows. *)
Definition replay_db : Type := list (result (list row)).

Definition replay (query : string) (p : params) (g : replay_db)
  : result (list row) * replay_db :=
  match g with
  | [] => (ok [], [])
  | r :: g' => (r, g')
  end.

Definition fresh (g : replay_db) : world replay_db :=
  {| graph := g; sent := [] |}.

(** The neighbours of the symptom "leaking water" in a small graph: two
    scenarios it indicates and, between them in the result, one action. *)
Definition door_seal_worn : row :=
  [ ("rel_type", VStr "INDICATES");
    ("node_labels", VList [VStr "ProblemScenario"]);
    ("node", VDict [("description", VStr "door seal worn")]) ].

Definition replace_door_seal : row :=
  [ ("rel_type", VStr "RESOLVED_BY");
    ("node_labels", VList [VStr "Action"]);
    ("node", VDict [("name", VStr "replace_door_seal")]) ].

Definition drain_hose_loose : row :=
  [ ("rel_type", VStr "INDICATES");
    ("node_labels", VList [VStr "ProblemScenario"]);
    ("node", VDict [("description", VStr "drain hose loose")]) ].

Definition leaking_water : list row :=
  [door_seal_worn; replace_door_seal; drain_hose_loose].

(** A row of the traversal that came back without its node. *)
Definition pump_blocked_without_node : row :=
  [ ("rel_type", VStr "INDICATES");
    ("node_labels", VList [VStr "ProblemScenario"]) ].

(** ** Vocabulary of the statements *)

(** The labels [get_neighbors] knows: the keys of its table. *)
Definition known_labels : list string := map fst property_keys.

(** The four entity kinds as the design document names them. *)
Definition documented_kinds : list string :=
  ["Action"; "ErrorCode"; "ProblemScenario"; "Symptom"].

(** What one row of the traversal contributes, and under which key. *)
Definition rel_type_of (r : row) : value := get r "rel_type".

Definition descriptor_of (r : row) : descriptor :=
  {| labels := get r "node_labels"; properties := get r "node" |}.

(** The rows of relationship type [k], in the order of the result. *)
Definition rows_under (k : value) (rows : list row) : list row :=
  filter (fun r => key_eqb (rel_type_of r) k) rows.

(** A row with the three columns of the traversal, the first a string. *)
Definition traversal_row (r : row) : Prop :=
  (exists t, dict_get r "rel_type" = Some (VStr t))
  /\ dict_get r "node_labels" <> None
  /\ dict_get r "node" <> None.

Definition nonempty_groups (d : neighbors_map) : Prop :=
  Forall (fun kv => snd kv <> []) d.

Definition hashable (v : value) : Prop := hash v = ok tt.

(** Keys are hashable and pairwise different. *)
Definition proper_keys {V} (d : kdict V) : Prop :=
  Forall hashable (map fst d) /\ NoDup (map fst d).

(** The query texts [get_neighbors] can build: one per line of its table. *)
Definition neighbors_texts : list string :=
  map (fun lk => neighbors_query (fst lk) (Some (snd lk))) property_keys.

(** The texts a traversal of [label] sends: a function of the label alone. *)
Definition traversal_texts (label : string) : list string :=
  if existsb (String.eqb label) known_labels
  then [neighbors_query label (dict_get property_keys label)]
  else [].

(** A row's column holds the string [s]. *)
Definition holds_str (column : string) (r : row) (s : string) : Prop :=
  dict_get r column = Some (VStr s).

(** A row and the error-code record made from it *)
Definition ecode_from (r : row) (a : ECode) : Prop :=
  holds_str "code" r (ECode_code a)
  /\ validate_optional_str "ECode" (get r "description")
     = ok (ECode_description a).

(** The computation [c] sends the query [(q, p)] to the store, once, and
    nothing else; an exception of the store is the exception of [c]. *)
Definition sends_once {db A}
  (run : string -> params -> db -> result (list row) * db)
  (c : M db A) (q : string) (p : params) : Prop :=
  forall w : world db,
    sent (snd (c w)) = sent w ++ [(q, p)]
    /\ graph (snd (c w)) = snd (run q p (graph w))
    /\ forall e, fst (run q p (graph w)) = raise e -> fst (c w) = raise e.

(** The relationship types of a result in the order they first appear,
    after those already [seen]. *)
Fixpoint first_seen (seen ks : list value) : list value :=
  match ks with
  | [] => seen
  | k :: ks' =>
      if existsb (fun k' => key_eqb k' k) seen
      then first_seen seen ks'
      else first_seen (seen ++ [k]) ks'
  end.

(** The exception that a row makes the loop of [get_neighbors] raise, if it
    makes it raise: the checks are in the order the loop meets them. *)
Definition row_error (r : row) : option exn :=
  match dict_get r "rel_type" with
  | None => Some (KeyError "rel_type")
  | Some t =>
      match hash t with
      | inl e => Some e
      | inr _ =>
          match dict_get r "node_labels" with
          | None => Some (KeyError "node_labels")
          | Some _ =>
              match dict_get r "node" with
              | None => Some (KeyError "node")
              | Some _ => None
              end
          end
      end
  end.

(** What a call sends to the store: read off the call, not off what the
    store answers. *)
Definition queries_of (c : tool_call) : list (string * params) :=
  match c with
  | Call_possible_actions_list => [(actions_query, [])]
  | Call_possible_error_codes_list => [(error_codes_query, [])]
  | Call_possible_scenarios_list => [(problem_scenarios_query, [])]
  | Call_possible_symptom_list => [(symptoms_query, [])]
  | Call_get_entity_neighbors label identifier =>
      map (fun q => (q, [("identifier", VStr identifier)]))
          (traversal_texts label)
  | Call_propose_correct_action _ => []
  end.

(** The eight texts of the module: four enumerations, four traversals. *)
Definition all_texts : list string :=
  [actions_query; error_codes_query; problem_scenarios_query; symptoms_query]
  ++ neighbors_texts.

(** The store after the queries [qs] have been run on it, in order. *)
Definition store_after {db : Type}
  (run : string -> params -> db -> result (list row) * db)
  (qs : list (string * params)) (g : db) : db :=
  fold_left (fun g qp => snd (run (fst qp) (snd qp) g)) qs g.

(** The dictionary after [d.setdefault(k, []).append(x)] *)
Definition upsert {V} (d : kdict (list V)) (k : value) (x : V)
  : kdict (list V) :=
  append_at (setdefault d k []) k x.

(** What a group holds once [l] has been appended to it *)
Definition extend {V} (o : option (list V)) (l : list V) : option (list V) :=
  match o, l with
  | None, [] => None
  | None, _ => Some l
  | Some l0, _ => Some (l0 ++ l)
  end.

(** * Properties *)

(** ** Keys and dictionaries *)

Lemma key_eqb_eq (a b : value) : key_eqb a b = true -> a = b.
Proof.
  destruct a, b; simpl; try discriminate; intros H.
  - reflexivity.
  - apply Z.eqb_eq in H. now subst.
  - apply String.eqb_eq in H. now subst.
Qed.

Lemma key_eqb_refl (a : value) : hashable a -> key_eqb a a = true.
Proof.
  unfold hashable.
  destruct a; simpl; intros H; try discriminate.
  - reflexivity.
  - apply Z.eqb_refl.
  - apply String.eqb_refl.
Qed.

Lemma key_eqb_neq (a b : value) : a <> b -> key_eqb a b = false.
Proof.
  intros H. destruct (key_eqb a b) eqn:E; [|reflexivity].
  now apply key_eqb_eq in E.
Qed.

Lemma lookup_in {V} (d : kdict V) (k : value) (v : V) :
  lookup d k = Some v -> In k (map fst d).
Proof.
  induction d as [|[k' v'] d IH]; simpl; [discriminate|].
  destruct (key_eqb k' k) eqn:E.
  - intros _. left. now apply key_eqb_eq.
  - intros H. right. now apply IH.
Qed.

Lemma in_lookup {V} (d : kdict V) (k : value) :
  hashable k -> In k (map fst d) -> lookup d k <> None.
Proof.
  intros Hk.
  induction d as [|[k' v'] d IH]; simpl; [tauto|].
  intros [->|Hin].
  - now rewrite key_eqb_refl.
  - destruct (key_eqb k' k); [discriminate|now apply IH].
Qed.

Section Upsert.

Context {V : Type}.
Implicit Types (d : kdict (list V)) (k : value) (x : V).

Lemma lookup_upsert_same d k x :
  hashable k -> lookup (upsert d k x) k = extend (lookup d k) [x].
Proof.
  intros Hk. unfold upsert.
  induction d as [|[k' l] d IH]; simpl.
  - rewrite key_eqb_refl by assumption. simpl.
    now rewrite key_eqb_refl.
  - destruct (key_eqb k' k) eqn:E; simpl; rewrite E; simpl; rewrite E.
    + reflexivity.
    + exact IH.
Qed.

Lemma lookup_upsert_other d k k' x :
  key_eqb k k' = false -> lookup (upsert d k x) k' = lookup d k'.
Proof.
  intros Hk. unfold upsert.
  induction d as [|[k0 l] d IH]; simpl.
  - destruct (key_eqb k k) eqn:E; simpl; now rewrite ?Hk.
  - destruct (key_eqb k0 k) eqn:E; simpl; rewrite E; simpl.
    + apply key_eqb_eq in E. subst k0. now rewrite Hk.
    + now rewrite IH.
Qed.

Lemma keys_upsert d k x :
  hashable k ->
  map fst (upsert d k x)
  = match lookup d k with
    | Some _ => map fst d
    | None => map fst d ++ [k]
    end.
Proof.
  intros Hk. unfold upsert.
  induction d as [|[k' l] d IH]; simpl.
  - now rewrite key_eqb_refl.
  - destruct (key_eqb k' k) eqn:E; simpl; rewrite E; simpl; [reflexivity|].
    rewrite IH. now destruct (lookup d k).
Qed.

Lemma proper_keys_upsert d k x :
  hashable k -> proper_keys d -> proper_keys (upsert d k x).
Proof.
  intros Hk [Hh Hn]. unfold proper_keys.
  rewrite keys_upsert by assumption.
  destruct (lookup d k) eqn:E; [now split|].
  split.
  - apply Forall_app. split; [assumption|]. now constructor.
  - apply NoDup_incl_NoDup with (l := k :: map fst d).
    + constructor; [|assumption].
      intros Hin. now apply (in_lookup d k Hk Hin).
    + rewrite length_app. simpl. lia.
    + intros y Hy. apply in_or_app. simpl in *. tauto.
Qed.

Lemma nonempty_upsert (d : kdict (list V)) k x :
  hashable k ->
  Forall (fun kv => snd kv <> []) d ->
  Forall (fun kv => snd kv <> []) (upsert d k x).
Proof.
  intros Hk. unfold upsert.
  induction d as [|[k' l] d IH]; simpl; intros H.
  - rewrite key_eqb_refl by assumption.
    constructor; [discriminate|constructor].
  - inversion H as [|? ? Hl Hd]; subst.
    destruct (key_eqb k' k) eqn:E; simpl; rewrite E.
    + constructor; [|assumption]. simpl. now destruct l.
    + constructor; [assumption|]. now apply IH.
Qed.

End Upsert.

Lemma extend_nil {V} (o : option (list V)) : extend o [] = o.
Proof. destruct o; simpl; [now rewrite app_nil_r|reflexivity]. Qed.

Lemma extend_cons {V} (o : option (list V)) (x : V) (l : list V) :
  extend (extend o [x]) l = extend o (x :: l).
Proof.
  destruct o as [l0|]; simpl; [|reflexivity].
  now rewrite <- app_assoc.
Qed.

Lemma lookup_of_in {V} (d : kdict V) (k : value) (v : V) :
  proper_keys d -> In (k, v) d -> lookup d k = Some v.
Proof.
  intros [Hh Hn].
  induction d as [|[k' v'] d IH]; simpl in *; [tauto|].
  inversion Hh as [|? ? Hk' Hh']; subst.
  inversion Hn as [|? ? Hnot Hn']; subst.
  intros [[= -> ->]|Hin].
  - now rewrite key_eqb_refl.
  - rewrite key_eqb_neq; [now apply IH|].
    intros ->. apply Hnot.
    change k with (fst (k, v)). now apply in_map.
Qed.

Lemma extend_None_inv {V} (l l' : list V) :
  extend None l = Some l' -> l' = l /\ l <> [].
Proof.
  destruct l; simpl; [discriminate|].
  intros [= <-]. split; [reflexivity|discriminate].
Qed.

Lemma rows_under_in (k : value) (rows : list row) (r : row) :
  In r (rows_under k rows) -> In r rows /\ rel_type_of r = k.
Proof.
  unfold rows_under. rewrite filter_In.
  intros [Hin Hk]. split; [assumption|now apply key_eqb_eq].
Qed.

(** ** The loop of [get_neighbors] *)

Ltac step_result :=
  unfold getitem, ok, raise, bind in *; simpl in *.

(** A pass of the loop that does not raise has added the row's descriptor
    under the row's relationship type. *)
Lemma add_neighbor_inv (d d' : neighbors_map) (r : row) :
  add_neighbor d r = inr d' ->
  hashable (rel_type_of r)
  /\ d' = upsert d (rel_type_of r) (descriptor_of r).
Proof.
  unfold add_neighbor, rel_type_of, descriptor_of, get, hashable, upsert.
  step_result.
  destruct (dict_get r "rel_type") as [t|]; [|discriminate].
  destruct (hash t) as [e|[]] eqn:Hh; [discriminate|].
  destruct (dict_get r "node_labels"); [|discriminate].
  destruct (dict_get r "node"); [|discriminate].
  intros [= <-]. now split.
Qed.

Lemma add_neighbor_traversal (d : neighbors_map) (r : row) :
  traversal_row r ->
  add_neighbor d r = inr (upsert d (rel_type_of r) (descriptor_of r)).
Proof.
  intros [[t Ht] [Hl Hn]].
  unfold add_neighbor, rel_type_of, descriptor_of, get, upsert.
  step_result. rewrite Ht. simpl.
  destruct (dict_get r "node_labels"); [|contradiction].
  destruct (dict_get r "node"); [|contradiction].
  reflexivity.
Qed.

Lemma for_each_traversal (rows : list row) :
  Forall traversal_row rows ->
  forall d, exists d', for_each add_neighbor rows d = inr d'.
Proof.
  induction 1 as [|r rows Hr _ IH]; intros d; simpl.
  - now exists d.
  - rewrite add_neighbor_traversal by assumption. apply IH.
Qed.

Lemma for_each_add_neighbor (rows : list row) :
  forall d d' : neighbors_map,
    for_each add_neighbor rows d = inr d' ->
    (proper_keys d -> proper_keys d')
    /\ (nonempty_groups d -> nonempty_groups d')
    /\ (forall k,
           lookup d' k
           = extend (lookup d k) (map descriptor_of (rows_under k rows))).
Proof.
  induction rows as [|r rows IH]; intros d d'; simpl.
  - intros [= <-]. split; [|split]; auto.
    intros k. now rewrite extend_nil.
  - destruct (add_neighbor d r) as [e|d1] eqn:E; [discriminate|].
    simpl. intros H.
    apply add_neighbor_inv in E. destruct E as [Hk ->].
    destruct (IH _ _ H) as (Hp & Hn & Hl).
    split; [|split].
    + intros Hd. apply Hp. now apply proper_keys_upsert.
    + intros Hd. apply Hn. now apply nonempty_upsert.
    + intros k. rewrite Hl.
      destruct (key_eqb (rel_type_of r) k) eqn:Ek.
      * apply key_eqb_eq in Ek. subst k.
        rewrite lookup_upsert_same by assumption.
        now rewrite extend_cons.
      * now rewrite lookup_upsert_other.
Qed.

Lemma proper_keys_nil {V} : proper_keys (@nil (value * V)).
Proof. split; constructor. Qed.

(** ** The two paths of [get_neighbors] *)

Lemma known_label_cases (label : string) :
  In label known_labels ->
  label = "Action" \/ label = "ECode"
  \/ label = "ProblemScenario" \/ label = "Symptom".
Proof. simpl. intuition. Qed.

Lemma not_property_key (label : string) :
  not_ (dict_get property_keys label)
  = negb (existsb (String.eqb label) known_labels).
Proof.
  unfold known_labels, property_keys.
  cbn [map fst existsb dict_get].
  rewrite !(String.eqb_sym label).
  repeat (destruct (String.eqb _ label); [reflexivity|]).
  reflexivity.
Qed.

Lemma known_label_reflect (label : string) :
  existsb (String.eqb label) known_labels = true <-> In label known_labels.
Proof.
  rewrite existsb_exists. split.
  - intros [x [Hin Heq]]. apply String.eqb_eq in Heq. now subst.
  - intros H. exists label. split; [assumption|apply String.eqb_refl].
Qed.

Section Paths.

Context {db : Type}.
Variable run : string -> params -> db -> result (list row) * db.

Lemma get_neighbors_known (label identifier : string) (w : world db) :
  In label known_labels ->
  get_neighbors run label identifier w
  = let q := neighbors_query label (dict_get property_keys label) in
    let p := [("identifier", VStr identifier)] in
    (bind (fst (run q p (graph w))) (fun rows => for_each add_neighbor rows []),
     {| graph := snd (run q p (graph w)); sent := sent w ++ [(q, p)] |}).
Proof.
  intros H. apply known_label_reflect in H.
  unfold get_neighbors. rewrite not_property_key, H.
  change (negb true) with false. cbv beta iota zeta.
  unfold mbind, graph_query, lift.
  destruct (run _ _ (graph w)) as [[e|rows] g]; reflexivity.
Qed.

Lemma get_neighbors_unknown (label identifier : string) (w : world db) :
  ~ In label known_labels ->
  get_neighbors run label identifier w
  = (inl (ValueError ("Unknown label: " ++ label)), w).
Proof.
  intros H. unfold get_neighbors. rewrite not_property_key.
  destruct (existsb (String.eqb label) known_labels) eqn:E.
  - apply known_label_reflect in E. contradiction.
  - reflexivity.
Qed.

End Paths.

(** ** Queries and comprehensions *)

Section Queries.

Context {db : Type}.
Variable run : string -> params -> db -> result (list row) * db.

(** A query followed by a computation on its rows that leaves the store
    alone: every method of [Neo4jTool] has this shape. *)
Lemma query_then {A} (q : string) (p : params) (f : list row -> result A)
  (w : world db) :
  mbind (graph_query run q p) (fun rows => lift (f rows)) w
  = (bind (fst (run q p (graph w))) f,
     {| graph := snd (run q p (graph w)); sent := sent w ++ [(q, p)] |}).
Proof.
  unfold mbind, graph_query, lift.
  destruct (run q p (graph w)) as [[e|rows] g]; reflexivity.
Qed.

Lemma query_then_once {A} (q : string) (p : params)
  (f : list row -> result A) :
  sends_once run (mbind (graph_query run q p) (fun rows => lift (f rows))) q p.
Proof.
  intros w. rewrite query_then. simpl.
  split; [reflexivity|split; [reflexivity|]].
  intros e ->. reflexivity.
Qed.

End Queries.

Section Comprehension.

Context {A B : Type}.
Variable f : A -> result B.

Lemma comprehension_ok_iff (rows : list A) (bs : list B) :
  comprehension f rows = ok bs <-> Forall2 (fun r b => f r = ok b) rows bs.
Proof.
  revert bs. induction rows as [|r rows IH]; intros bs; simpl.
  - split.
    + intros [= <-]. constructor.
    + intros H. now inversion H.
  - unfold bind, ok in *.
    destruct (f r) as [e|b] eqn:Er.
    + split; [discriminate|]. intros H. inversion H; subst. congruence.
    + destruct (comprehension f rows) as [e|bs'] eqn:Ec.
      * split; [discriminate|]. intros H. inversion H; subst.
        match goal with H' : Forall2 _ rows _ |- _ => apply IH in H' end.
        discriminate.
      * split.
        -- intros [= <-]. constructor; [assumption|]. now apply IH.
        -- intros H. inversion H as [|? ? ? ? Hb Hbs]; subst.
           apply IH in Hbs. congruence.
Qed.

Lemma comprehension_raises (rows : list A) :
  Exists (fun r => exists e, f r = raise e) rows ->
  exists e, comprehension f rows = raise e.
Proof.
  induction 1 as [r rows [e He]|r rows _ [e IH]]; simpl; unfold bind, raise in *.
  - rewrite He. now exists e.
  - destruct (f r) as [e'|b]; [now exists e'|].
    rewrite IH. now exists e.
Qed.

End Comprehension.

(** ** Rows and records *)

Lemma action_of_row_ok (r : row) (a : Action) :
  action_of_row r = ok a <-> holds_str "name" r (Action_name a).
Proof.
  unfold action_of_row, new_Action, holds_str. step_result.
  destruct a as [s].
  destruct (dict_get r "name") as [[]|]; simpl;
    split; intros H; try discriminate; congruence.
Qed.

Lemma problem_scenario_of_row_ok (r : row) (a : ProblemScenario) :
  problem_scenario_of_row r = ok a
  <-> holds_str "description" r (ProblemScenario_description a).
Proof.
  unfold problem_scenario_of_row, new_ProblemScenario, holds_str. step_result.
  destruct a as [s].
  destruct (dict_get r "description") as [[]|]; simpl;
    split; intros H; try discriminate; congruence.
Qed.

Lemma symptom_of_row_ok (r : row) (a : Symptom) :
  symptom_of_row r = ok a <-> holds_str "name" r (Symptom_name a).
Proof.
  unfold symptom_of_row, new_Symptom, holds_str. step_result.
  destruct a as [s].
  destruct (dict_get r "name") as [[]|]; simpl;
    split; intros H; try discriminate; congruence.
Qed.

Lemma ecode_of_row_ok (r : row) (a : ECode) :
  ecode_of_row r = ok a <-> ecode_from r a.
Proof.
  unfold ecode_of_row, new_ECode, ecode_from, holds_str. step_result.
  destruct a as [c d]. simpl.
  destruct (dict_get r "code") as [[]|]; simpl;
    try (split; [discriminate|intros [H _]; discriminate]).
  destruct (validate_optional_str "ECode" (get r "description")) as [e|d'];
    simpl.
  - split; [discriminate|intros [_ H]; discriminate].
  - split.
    + intros [= <- <-]. now split.
    + intros [[= <-] [= <-]]. reflexivity.
Qed.

(** * The statements of the design document *)

(** ** Neighbour traversal: labels *)

(** C1, as the code has it.  For each of the four labels of the table of
    [get_neighbors], which are Action, ECode, ProblemScenario and Symptom,
    and every identifier: when the store answers the traversal with no rows,
    [get_entity_neighbors] returns the empty mapping and does not raise. *)
Theorem C1_no_rows_empty_mapping :
  forall (db : Type) (run : string -> params -> db -> result (list row) * db)
         (label identifier : string) (w : world db),
    In label known_labels ->
    fst (run (neighbors_query label (dict_get property_keys label))
             [("identifier", VStr identifier)] (graph w)) = ok [] ->
    fst (get_entity_neighbors run label identifier w) = ok [].
Proof.
  intros db run label identifier w Hl Hrows.
  unfold get_entity_neighbors.
  rewrite get_neighbors_known by assumption.
  cbv zeta. cbn [fst]. rewrite Hrows. reflexivity.
Qed.

(** The error code E24 in a store that has no such node: the label the code
    knows is ECode. *)
Lemma C1_ECode_E24 :
  In "ECode" known_labels
  /\ fst (replay (neighbors_query "ECode" (dict_get property_keys "ECode"))
                 [("identifier", VStr "E24")] (graph (fresh [ok []]))) = ok []
  /\ fst (get_entity_neighbors replay "ECode" "E24" (fresh [ok []])) = ok [].
Proof.
  assert (H1 : In "ECode" known_labels) by (right; left; reflexivity).
  assert (H2 : fst (replay (neighbors_query "ECode"
                              (dict_get property_keys "ECode"))
                      [("identifier", VStr "E24")] (graph (fresh [ok []])))
               = ok []) by reflexivity.
  exact (conj H1 (conj H2
    (C1_no_rows_empty_mapping replay_db replay "ECode" "E24"
       (fresh [ok []]) H1 H2))).
Defined.

(** C1 as the document words it fails: the kind it calls ErrorCode is not a
    label of the table, so the call raises instead of returning the empty
    mapping, and the store, which would have answered with no rows, is not
    asked. *)
Lemma C1_ErrorCode_E24_raises :
  In "ErrorCode" documented_kinds
  /\ get_entity_neighbors replay "ErrorCode" "E24" (fresh [ok []])
     = (raise (ValueError "Unknown label: ErrorCode"), fresh [ok []]).
Proof.
  split.
  - right; left; reflexivity.
  - reflexivity.
Qed.

(** C2, as the code has it.  For every label that is not one of Action,
    ECode, ProblemScenario and Symptom, and every identifier, the empty one
    included, [get_entity_neighbors] raises the unknown-label [ValueError];
    it returns no mapping, empty or not. *)
Theorem C2_unknown_label_raises :
  forall (db : Type) (run : string -> params -> db -> result (list row) * db)
         (label identifier : string) (w : world db),
    ~ In label known_labels ->
    fst (get_entity_neighbors run label identifier w)
    = raise (ValueError ("Unknown label: " ++ label))
    /\ forall m, fst (get_entity_neighbors run label identifier w) <> ok m.
Proof.
  intros db run label identifier w Hl.
  unfold get_entity_neighbors.
  rewrite get_neighbors_unknown by assumption.
  split; [reflexivity|]. intros m. discriminate.
Qed.

Lemma not_known_ErrorCode : ~ In "ErrorCode" known_labels.
Proof. simpl. intros [H|[H|[H|[H|[]]]]]; discriminate H. Defined.

Lemma C2_ErrorCode_empty_identifier :
  ~ In "ErrorCode" known_labels
  /\ fst (get_entity_neighbors replay "ErrorCode" EmptyString (fresh []))
     = raise (ValueError "Unknown label: ErrorCode").
Proof.
  exact (conj not_known_ErrorCode
    (proj1 (C2_unknown_label_raises replay_db replay "ErrorCode" EmptyString
              (fresh []) not_known_ErrorCode))).
Defined.

(** C2 as the document words it fails: ECode is outside the four kinds the
    document lists, and a call with it does not raise; with the empty
    identifier and a store that finds nothing it returns the empty
    mapping. *)
Lemma C2_ECode_is_accepted :
  ~ In "ECode" documented_kinds
  /\ fst (get_entity_neighbors replay "ECode" EmptyString (fresh [ok []]))
     = ok [].
Proof.
  split.
  - simpl. intros [H|[H|[H|[H|[]]]]]; discriminate H.
  - reflexivity.
Qed.

(** C10.  When the label is not in the table of [get_neighbors], the
    [ValueError] is raised before anything is sent: the log of queries and
    the state of the store are what they were, and the outcome is the same
    whatever the store would have answered. *)
Theorem C10_unknown_label_sends_nothing :
  forall (db : Type) (run : string -> params -> db -> result (list row) * db)
         (label identifier : string) (w : world db),
    ~ In label known_labels ->
    snd (get_entity_neighbors run label identifier w) = w
    /\ sent (snd (get_entity_neighbors run label identifier w)) = sent w
    /\ graph (snd (get_entity_neighbors run label identifier w)) = graph w
    /\ forall run',
         get_entity_neighbors run' label identifier w
         = (raise (ValueError ("Unknown label: " ++ label)), w).
Proof.
  intros db run label identifier w Hl.
  unfold get_entity_neighbors.
  rewrite get_neighbors_unknown by assumption.
  repeat split. intros run'. now apply get_neighbors_unknown.
Qed.

Lemma not_known_Dishwasher : ~ In "Dishwasher" known_labels.
Proof. simpl. intros [H|[H|[H|[H|[]]]]]; discriminate H. Defined.

Lemma C10_Dishwasher_sends_nothing :
  ~ In "Dishwasher" known_labels
  /\ sent (snd (get_entity_neighbors replay "Dishwasher" "Bosch 800"
                 (fresh [raise (DriverError "unreachable")]))) = [].
Proof.
  exact (conj not_known_Dishwasher
    (proj1 (proj2 (C10_unknown_label_sends_nothing replay_db replay
       "Dishwasher" "Bosch 800" (fresh [raise (DriverError "unreachable")])
       not_known_Dishwasher)))).
Defined.

(** ** Neighbour traversal: grouping *)

(** What [get_neighbors] returns for a label of its table, in terms of the
    rows the store answered with: the keys are hashable and distinct, no
    group is empty, and the group of a key holds the descriptors of the rows
    of that relationship type, in the order of the rows. *)
Lemma get_neighbors_groups {db : Type}
  (run : string -> params -> db -> result (list row) * db)
  (label identifier : string) (w : world db) (rows : list row)
  (m : neighbors_map) :
  In label known_labels ->
  fst (run (neighbors_query label (dict_get property_keys label))
           [("identifier", VStr identifier)] (graph w)) = ok rows ->
  fst (get_neighbors run label identifier w) = ok m ->
  proper_keys m
  /\ nonempty_groups m
  /\ forall k,
       lookup m k = extend None (map descriptor_of (rows_under k rows)).
Proof.
  intros Hl Hrows.
  rewrite get_neighbors_known by assumption.
  cbv zeta. cbn [fst]. rewrite Hrows. unfold bind, ok.
  intros H. apply for_each_add_neighbor in H.
  destruct H as (Hp & Hn & Hk).
  split; [apply Hp, proper_keys_nil|].
  split; [apply Hn; constructor|].
  exact Hk.
Qed.

Lemma get_neighbors_returns {db : Type}
  (run : string -> params -> db -> result (list row) * db)
  (label identifier : string) (w : world db) (rows : list row) :
  In label known_labels ->
  fst (run (neighbors_query label (dict_get property_keys label))
           [("identifier", VStr identifier)] (graph w)) = ok rows ->
  Forall traversal_row rows ->
  exists m, fst (get_neighbors run label identifier w) = ok m.
Proof.
  intros Hl Hrows Ht.
  rewrite get_neighbors_known by assumption.
  cbv zeta. cbn [fst]. rewrite Hrows. unfold bind, ok.
  now apply for_each_traversal.
Qed.

(** A key of the mapping is the relationship type of some row. *)
Lemma key_has_rows {db : Type}
  (run : string -> params -> db -> result (list row) * db)
  (label identifier : string) (w : world db) (rows : list row)
  (m : neighbors_map) (k : value) :
  In label known_labels ->
  fst (run (neighbors_query label (dict_get property_keys label))
           [("identifier", VStr identifier)] (graph w)) = ok rows ->
  fst (get_neighbors run label identifier w) = ok m ->
  In k (map fst m) -> rows_under k rows <> [].
Proof.
  intros Hl Hrows Hm Hk.
  destruct (get_neighbors_groups run label identifier w rows m Hl Hrows Hm)
    as ([Hh _] & _ & Hlook).
  assert (Hhk : hashable k).
  { rewrite Forall_forall in Hh. now apply Hh. }
  pose proof (in_lookup m k Hhk Hk) as Hne.
  rewrite Hlook in Hne. intros E. rewrite E in Hne. now apply Hne.
Qed.

(** C3.  The store answers a traversal with rows of two relationship types
    [R1] and [R2], two rows of the first and one of the second, in any
    order.  The mapping returned has the two keys [R1] and [R2] and no
    other, the group of [R1] is the descriptors of its two rows in the order
    of the result, the group of [R2] is the descriptor of its row, and every
    descriptor of the mapping sits under the relationship type of a row it
    was made from. *)
Theorem C3_two_relationship_types :
  forall (db : Type) (run : string -> params -> db -> result (list row) * db)
         (label identifier : string) (w : world db) (rows : list row)
         (R1 R2 : string) (a b c : row),
    In label known_labels ->
    fst (run (neighbors_query label (dict_get property_keys label))
             [("identifier", VStr identifier)] (graph w)) = ok rows ->
    Forall traversal_row rows ->
    R1 <> R2 ->
    Forall (fun r => rel_type_of r = VStr R1 \/ rel_type_of r = VStr R2) rows ->
    rows_under (VStr R1) rows = [a; b] ->
    rows_under (VStr R2) rows = [c] ->
    exists m : neighbors_map,
      fst (get_entity_neighbors run label identifier w) = ok m
      /\ Permutation (map fst m) [VStr R1; VStr R2]
      /\ lookup m (VStr R1) = Some [descriptor_of a; descriptor_of b]
      /\ lookup m (VStr R2) = Some [descriptor_of c]
      /\ forall k l x,
           In (k, l) m -> In x l ->
           exists r, In r rows /\ rel_type_of r = k /\ descriptor_of r = x.
Proof.
  intros db run label identifier w rows R1 R2 a b c
    Hl Hrows Ht Hne Honly H1 H2.
  unfold get_entity_neighbors.
  destruct (get_neighbors_returns run label identifier w rows Hl Hrows Ht)
    as [m Hm].
  exists m. split; [assumption|].
  destruct (get_neighbors_groups run label identifier w rows m Hl Hrows Hm)
    as (Hp & _ & Hlook).
  assert (L1 : lookup m (VStr R1) = Some [descriptor_of a; descriptor_of b]).
  { rewrite Hlook, H1. reflexivity. }
  assert (L2 : lookup m (VStr R2) = Some [descriptor_of c]).
  { rewrite Hlook, H2. reflexivity. }
  split; [|split; [assumption|split; [assumption|]]].
  - apply NoDup_Permutation.
    + apply Hp.
    + constructor; [|constructor; [tauto|constructor]].
      intros [E|[]]. injection E as E. congruence.
    + intros k. split.
      * intros Hk.
        pose proof (key_has_rows run label identifier w rows m k
                      Hl Hrows Hm Hk) as Hrs.
        destruct (rows_under k rows) as [|r rs] eqn:E; [contradiction|].
        assert (Hr : In r (rows_under k rows)) by (rewrite E; now left).
        apply rows_under_in in Hr. destruct Hr as [Hin Hrel].
        rewrite Forall_forall in Honly.
        destruct (Honly r Hin) as [E1|E2]; simpl; [left|right; left];
          congruence.
      * intros [<-|[<-|[]]]; eapply lookup_in; eassumption.
  - intros k l x Hkl Hx.
    pose proof (lookup_of_in m k l Hp Hkl) as Hk.
    rewrite Hlook in Hk. apply extend_None_inv in Hk.
    destruct Hk as [-> _].
    apply in_map_iff in Hx. destruct Hx as (r & Hd & Hr).
    apply rows_under_in in Hr. destruct Hr as [Hin Hrel].
    now exists r.
Qed.

Lemma leaking_water_traversal : Forall traversal_row leaking_water.
Proof.
  repeat constructor; try (now exists "INDICATES");
    try (now exists "RESOLVED_BY"); discriminate.
Defined.

Lemma leaking_water_types :
  Forall (fun r => rel_type_of r = VStr "INDICATES"
                   \/ rel_type_of r = VStr "RESOLVED_BY") leaking_water.
Proof.
  repeat constructor; (now left) || (now right).
Defined.

Lemma C3_leaking_water :
  exists m : neighbors_map,
    fst (get_entity_neighbors replay "Symptom" "leaking water"
           (fresh [ok leaking_water])) = ok m
    /\ Permutation (map fst m) [VStr "INDICATES"; VStr "RESOLVED_BY"]
    /\ lookup m (VStr "INDICATES")
       = Some [descriptor_of door_seal_worn; descriptor_of drain_hose_loose]
    /\ lookup m (VStr "RESOLVED_BY") = Some [descriptor_of replace_door_seal]
    /\ forall k l x,
         In (k, l) m -> In x l ->
         exists r,
           In r leaking_water /\ rel_type_of r = k /\ descriptor_of r = x.
Proof.
  apply (C3_two_relationship_types replay_db replay "Symptom" "leaking water"
           (fresh [ok leaking_water]) leaking_water
           "INDICATES" "RESOLVED_BY"
           door_seal_worn drain_hose_loose replace_door_seal).
  - right; right; right; left; reflexivity.
  - reflexivity.
  - exact leaking_water_traversal.
  - intros H; discriminate H.
  - exact leaking_water_types.
  - reflexivity.
  - reflexivity.
Defined.

(** The scenario of the design document: one symptom, one scenario it
    indicates. *)
Example leaking_water_indicates :
  fst (get_entity_neighbors replay "Symptom" "leaking water"
         (fresh [ok [door_seal_worn]]))
  = ok [ (VStr "INDICATES",
          [ {| labels := VList [VStr "ProblemScenario"];
               properties := VDict [("description", VStr "door seal worn")] |} ]) ].
Proof. reflexivity. Qed.

(** The order of the groups is that of first appearance, and the order
    inside a group that of the rows. *)
Example leaking_water_groups :
  fst (get_entity_neighbors replay "Symptom" "leaking water"
         (fresh [ok leaking_water]))
  = ok [ (VStr "INDICATES",
          [descriptor_of door_seal_worn; descriptor_of drain_hose_loose]);
         (VStr "RESOLVED_BY", [descriptor_of replace_door_seal]) ].
Proof. reflexivity. Qed.

(** C4.  Whatever rows the store answers a traversal with, every key of the
    mapping returned is bound to a non-empty list and is the relationship
    type of at least one row; rows that have the three columns of the
    traversal do give a mapping; and no rows give the empty mapping. *)
Theorem C4_groups_are_nonempty :
  forall (db : Type) (run : string -> params -> db -> result (list row) * db)
         (label identifier : string) (w : world db) (rows : list row),
    In label known_labels ->
    fst (run (neighbors_query label (dict_get property_keys label))
             [("identifier", VStr identifier)] (graph w)) = ok rows ->
    (forall m,
        fst (get_entity_neighbors run label identifier w) = ok m ->
        Forall (fun kv => snd kv <> []) m
        /\ forall k, In k (map fst m) -> rows_under k rows <> [])
    /\ (Forall traversal_row rows ->
        exists m, fst (get_entity_neighbors run label identifier w) = ok m)
    /\ (rows = [] ->
        fst (get_entity_neighbors run label identifier w) = ok []).
Proof.
  intros db run label identifier w rows Hl Hrows.
  unfold get_entity_neighbors.
  split; [|split].
  - intros m Hm. split.
    + now apply (get_neighbors_groups run label identifier w rows m).
    + intros k. now apply (key_has_rows run label identifier w rows m k).
  - now apply get_neighbors_returns.
  - intros ->. rewrite get_neighbors_known by assumption.
    cbv zeta. cbn [fst]. rewrite Hrows. reflexivity.
Qed.

Lemma C4_leaking_water :
  (forall m,
      fst (get_entity_neighbors replay "Symptom" "leaking water"
             (fresh [ok leaking_water])) = ok m ->
      Forall (fun kv => snd kv <> []) m
      /\ forall k, In k (map fst m) -> rows_under k leaking_water <> [])
  /\ (Forall traversal_row leaking_water ->
      exists m,
        fst (get_entity_neighbors replay "Symptom" "leaking water"
               (fresh [ok leaking_water])) = ok m)
  /\ (leaking_water = [] ->
      fst (get_entity_neighbors replay "Symptom" "leaking water"
             (fresh [ok leaking_water])) = ok []).
Proof.
  apply (C4_groups_are_nonempty replay_db replay "Symptom" "leaking water"
           (fresh [ok leaking_water]) leaking_water).
  - right; right; right; left; reflexivity.
  - reflexivity.
Defined.

(** ** Enumerations *)

Section Enumerations.

Context {db : Type}.
Variable run : string -> params -> db -> result (list row) * db.

(** An enumeration returns records exactly when the store answers with rows
    and every row converts; the records are then the rows' conversions, one
    per row and in their order. *)
Lemma enumeration_ok {A} (q : string) (f : row -> result A)
  (w : world db) (recs : list A) :
  fst (mbind (graph_query run q [])
             (fun rows => lift (comprehension f rows)) w) = ok recs
  <-> exists rows,
        fst (run q [] (graph w)) = ok rows
        /\ Forall2 (fun r a => f r = ok a) rows recs.
Proof.
  rewrite query_then. cbn [fst].
  destruct (fst (run q [] (graph w))) as [e|rows]; unfold bind, ok.
  - split; [discriminate|]. intros (rows & H & _). discriminate.
  - rewrite (comprehension_ok_iff f). unfold ok. split.
    + intros H. now exists rows.
    + intros (rows' & [= <-] & H). exact H.
Qed.

End Enumerations.

Lemma Forall2_iff {A B} (P Q : A -> B -> Prop) (l : list A) (l' : list B) :
  (forall a b, P a b <-> Q a b) -> Forall2 P l l' <-> Forall2 Q l l'.
Proof.
  intros H. split; induction 1; constructor; auto; now apply H.
Qed.

(** C5, as the code has it.  Each of the four enumerations returns records
    exactly when the store answers with rows that all hold a string in the
    column of the natural key (and, for error codes, a string or nothing as
    description); the records are then one per row, in order, and the
    natural key of each is that string: never null, but empty when the
    string of the row is. *)
Theorem C5_natural_key_is_the_rows_string :
  forall (db : Type) (run : string -> params -> db -> result (list row) * db)
         (w : world db),
    (forall recs,
        fst (possible_actions_list run w) = ok recs
        <-> exists rows,
              fst (run actions_query [] (graph w)) = ok rows
              /\ Forall2 (fun r a => holds_str "name" r (Action_name a))
                         rows recs)
    /\ (forall recs,
          fst (possible_error_codes_list run w) = ok recs
          <-> exists rows,
                fst (run error_codes_query [] (graph w)) = ok rows
                /\ Forall2 ecode_from rows recs)
    /\ (forall recs,
          fst (possible_scenarios_list run w) = ok recs
          <-> exists rows,
                fst (run problem_scenarios_query [] (graph w)) = ok rows
                /\ Forall2 (fun r a =>
                              holds_str "description" r
                                (ProblemScenario_description a))
                           rows recs)
    /\ (forall recs,
          fst (possible_symptom_list run w) = ok recs
          <-> exists rows,
                fst (run symptoms_query [] (graph w)) = ok rows
                /\ Forall2 (fun r a => holds_str "name" r (Symptom_name a))
                           rows recs).
Proof.
  intros db run w.
  unfold possible_actions_list, possible_error_codes_list,
    possible_scenarios_list, possible_symptom_list,
    get_all_actions, get_all_error_codes, get_all_problem_scenarios,
    get_all_symptoms.
  split; [|split; [|split]]; intros recs;
    (etransitivity; [apply enumeration_ok|]);
    split; intros (rows & Hr & H); exists rows; (split; [exact Hr|]);
    revert H; apply Forall2_iff; intros r a;
    first [ apply action_of_row_ok | apply ecode_of_row_ok
          | apply problem_scenario_of_row_ok | apply symptom_of_row_ok
          | symmetry;
            first [ apply action_of_row_ok | apply ecode_of_row_ok
                  | apply problem_scenario_of_row_ok
                  | apply symptom_of_row_ok ] ].
Qed.

(** C5 as the document words it fails on the empty string: a node whose
    name, code or description is the empty string comes back as a record
    with an empty natural key. *)
Lemma C5_empty_natural_key :
  fst (possible_actions_list replay
         (fresh [ok [[("name", VStr EmptyString)]]]))
  = ok [ {| Action_name := EmptyString |} ]
  /\ fst (possible_error_codes_list replay
            (fresh [ok [[("code", VStr EmptyString);
                         ("description", VNone)]]]))
     = ok [ {| ECode_code := EmptyString; ECode_description := None |} ]
  /\ fst (possible_scenarios_list replay
            (fresh [ok [[("description", VStr EmptyString)]]]))
     = ok [ {| ProblemScenario_description := EmptyString |} ]
  /\ fst (possible_symptom_list replay
            (fresh [ok [[("name", VStr EmptyString)]]]))
     = ok [ {| Symptom_name := EmptyString |} ].
Proof. repeat split. Qed.

Lemma C5_error_codes_E24 :
  exists rows,
    fst (replay error_codes_query []
           (graph (fresh [ok [[("code", VStr "E24"); ("description", VNone)]]])))
    = ok rows
    /\ Forall2 ecode_from rows
         [ {| ECode_code := "E24"; ECode_description := None |} ].
Proof.
  exact (proj1 (proj1 (proj2
    (C5_natural_key_is_the_rows_string replay_db replay
       (fresh [ok [[("code", VStr "E24"); ("description", VNone)]]])))
    [ {| ECode_code := "E24"; ECode_description := None |} ]) eq_refl).
Defined.

(** A null natural key never reaches a record: the enumeration raises. *)
Example null_name_is_refused :
  fst (possible_actions_list replay (fresh [ok [[("name", VNone)]]]))
  = raise (ValidationError "Action").
Proof. reflexivity. Qed.

(** C6.  A row that lacks the column of the natural key of its kind does
    not convert: the conversion raises [KeyError] on that column, and an
    enumeration of error codes whose rows include such a row raises instead
    of returning records.  A row that has a string as code and lacks only the
    description converts to a record whose description is null. *)
Theorem C6_missing_key_raises_missing_description_is_null :
  forall r : row,
    (dict_get r "name" = None ->
     action_of_row r = raise (KeyError "name")
     /\ symptom_of_row r = raise (KeyError "name"))
    /\ (dict_get r "code" = None -> ecode_of_row r = raise (KeyError "code"))
    /\ (dict_get r "description" = None ->
        problem_scenario_of_row r = raise (KeyError "description"))
    /\ (forall (db : Type)
               (run : string -> params -> db -> result (list row) * db)
               (w : world db) (rows : list row),
          fst (run error_codes_query [] (graph w)) = ok rows ->
          In r rows ->
          dict_get r "code" = None ->
          exists e, fst (possible_error_codes_list run w) = raise e)
    /\ (forall c,
          dict_get r "code" = Some (VStr c) ->
          dict_get r "description" = None ->
          ecode_of_row r = ok {| ECode_code := c; ECode_description := None |}
          /\ forall (db : Type)
                    (run : string -> params -> db -> result (list row) * db)
                    (w : world db),
               fst (run error_codes_query [] (graph w)) = ok [r] ->
               fst (possible_error_codes_list run w)
               = ok [ {| ECode_code := c; ECode_description := None |} ]).
Proof.
  intros r.
  assert (Hcode : dict_get r "code" = None ->
                  ecode_of_row r = raise (KeyError "code")).
  { intros H. unfold ecode_of_row, getitem. now rewrite H. }
  assert (Hgood : forall c,
             dict_get r "code" = Some (VStr c) ->
             dict_get r "description" = None ->
             ecode_of_row r
             = ok {| ECode_code := c; ECode_description := None |}).
  { intros c Hc Hd. unfold ecode_of_row, getitem, get. now rewrite Hc, Hd. }
  split; [|split; [|split; [|split]]].
  - intros H. unfold action_of_row, symptom_of_row, getitem.
    now rewrite H.
  - exact Hcode.
  - intros H. unfold problem_scenario_of_row, getitem. now rewrite H.
  - intros db run w rows Hrows Hin Hc.
    unfold possible_error_codes_list, get_all_error_codes.
    rewrite query_then. cbn [fst]. rewrite Hrows. unfold bind, ok.
    apply comprehension_raises. apply Exists_exists.
    exists r. split; [assumption|].
    exists (KeyError "code"). now apply Hcode.
  - intros c Hc Hd. split; [now apply Hgood|].
    intros db run w Hrows.
    unfold possible_error_codes_list, get_all_error_codes.
    rewrite query_then. cbn [fst]. rewrite Hrows. unfold bind, ok.
    simpl. rewrite (Hgood c Hc Hd). reflexivity.
Qed.

(** A row of the error codes without its code, after one that is whole. *)
Lemma C6_row_without_code :
  exists e,
    fst (possible_error_codes_list replay
           (fresh [ok [ [("code", VStr "E24")];
                        [("description", VStr "water inlet fault")] ]]))
    = raise e.
Proof.
  exact (proj1 (proj2 (proj2 (proj2
    (C6_missing_key_raises_missing_description_is_null
       [("description", VStr "water inlet fault")]))))
    replay_db replay
    (fresh [ok [ [("code", VStr "E24")];
                 [("description", VStr "water inlet fault")] ]])
    [ [("code", VStr "E24")]; [("description", VStr "water inlet fault")] ]
    eq_refl (or_intror (or_introl eq_refl)) eq_refl).
Defined.

Example row_without_code_raises_KeyError :
  fst (possible_error_codes_list replay
         (fresh [ok [[("description", VStr "water inlet fault")]]]))
  = raise (KeyError "code").
Proof. reflexivity. Qed.

Example row_without_description :
  fst (possible_error_codes_list replay (fresh [ok [[("code", VStr "E24")]]]))
  = ok [ {| ECode_code := "E24"; ECode_description := None |} ].
Proof. reflexivity. Qed.

(** ** The proposal *)

(** C7.  [propose_correct_action] returns the action whose name is the
    string it was given, for every string; it sends nothing to the store
    and leaves it as it was, and what the store holds has no part in the
    result. *)
Theorem C7_propose_packs_the_name :
  forall (db : Type) (correct_action : string) (w : world db),
    propose_correct_action correct_action w
    = (ok {| Action_name := correct_action |}, w).
Proof. reflexivity. Qed.

Example propose_replace_motor :
  propose_correct_action "replace_motor"
    (fresh [raise (DriverError "unreachable")])
  = (ok {| Action_name := "replace_motor" |},
     fresh [raise (DriverError "unreachable")]).
Proof. reflexivity. Qed.

(** ** What is sent to the store *)

(** C8.  What [get_entity_neighbors] sends is the text made from the label,
    a function of the label alone, with the identifier as the bound
    parameter [identifier] and nowhere else; the text is one of the four the
    table allows, and is built only once the label has been found in the
    table.  Two calls with the same label send the same text, whatever
    their identifiers. *)
Theorem C8_query_text_depends_on_label_only :
  forall (db : Type) (run : string -> params -> db -> result (list row) * db)
         (label identifier : string) (w : world db),
    sent (snd (get_entity_neighbors run label identifier w))
    = sent w ++ map (fun q => (q, [("identifier", VStr identifier)]))
                    (traversal_texts label)
    /\ incl (traversal_texts label) neighbors_texts
    /\ (traversal_texts label <> [] -> In label known_labels)
    /\ forall identifier',
         map fst (sent (snd (get_entity_neighbors run label identifier' w)))
         = map fst (sent (snd (get_entity_neighbors run label identifier w))).
Proof.
  intros db run label identifier w.
  assert (Hsent : forall i,
             sent (snd (get_entity_neighbors run label i w))
             = sent w ++ map (fun q => (q, [("identifier", VStr i)]))
                             (traversal_texts label)).
  { intros i. unfold get_entity_neighbors, traversal_texts.
    destruct (existsb (String.eqb label) known_labels) eqn:E.
    - apply known_label_reflect in E.
      rewrite get_neighbors_known by assumption. reflexivity.
    - rewrite get_neighbors_unknown.
      + simpl. now rewrite app_nil_r.
      + intros H. apply known_label_reflect in H. congruence. }
  split; [apply Hsent|].
  split; [|split].
  - unfold traversal_texts.
    destruct (existsb (String.eqb label) known_labels) eqn:E;
      [|intros q []].
    apply known_label_reflect, known_label_cases in E.
    intros q [<-|[]].
    destruct E as [-> | [-> | [-> | ->]]].
    + left. reflexivity.
    + right; left. reflexivity.
    + right; right; left. reflexivity.
    + right; right; right; left. reflexivity.
  - unfold traversal_texts.
    destruct (existsb (String.eqb label) known_labels) eqn:E.
    + intros _. now apply known_label_reflect.
    + intros H. now contradiction H.
  - intros i. rewrite !Hsent, !map_app, !map_map. reflexivity.
Qed.

Example traversal_text_of_Symptom :
  map fst (sent (snd (get_entity_neighbors replay "Symptom" "leaking water"
                        (fresh []))))
  = [ (LF ++ "        MATCH (n:Symptom {name: $identifier})-[r]-(m)"
       ++ LF ++ "        RETURN type(r) AS rel_type, labels(m) AS node_labels, m AS node"
       ++ LF ++ "        ")%string ].
Proof. reflexivity. Qed.

(** C9, as the code has it.  Each enumeration, and each traversal of a
    label of the table of [get_neighbors], which are Action, ECode,
    ProblemScenario and Symptom, sends its query to the store once and sends
    nothing else; the store is left as that one query left it; and when the
    store raises, the call raises the same exception. *)
Theorem C9_one_query_and_failures_propagate :
  forall (db : Type) (run : string -> params -> db -> result (list row) * db),
    sends_once run (possible_actions_list run) actions_query []
    /\ sends_once run (possible_error_codes_list run) error_codes_query []
    /\ sends_once run (possible_scenarios_list run) problem_scenarios_query []
    /\ sends_once run (possible_symptom_list run) symptoms_query []
    /\ forall label identifier,
         In label known_labels ->
         sends_once run (get_entity_neighbors run label identifier)
           (neighbors_query label (dict_get property_keys label))
           [("identifier", VStr identifier)].
Proof.
  intros db run.
  repeat (split; [apply query_then_once|]).
  intros label identifier Hl w.
  unfold get_entity_neighbors.
  rewrite get_neighbors_known by assumption.
  cbv zeta. cbn [fst snd sent graph].
  split; [reflexivity|split; [reflexivity|]].
  intros e ->. reflexivity.
Qed.

(** The store is unreachable at the first query and would answer the second:
    the failure comes back as it is, and the second answer is still
    waiting. *)
Lemma C9_unreachable_store :
  sent (snd (possible_actions_list replay
               (fresh [raise (DriverError "unreachable"); ok []])))
  = sent (fresh [raise (DriverError "unreachable"); ok []])
    ++ [(actions_query, [])]
  /\ graph (snd (possible_actions_list replay
                   (fresh [raise (DriverError "unreachable"); ok []])))
     = snd (replay actions_query []
              (graph (fresh [raise (DriverError "unreachable"); ok []])))
  /\ forall e,
       fst (replay actions_query []
              (graph (fresh [raise (DriverError "unreachable"); ok []])))
       = raise e ->
       fst (possible_actions_list replay
              (fresh [raise (DriverError "unreachable"); ok []]))
       = raise e.
Proof.
  exact (proj1 (C9_one_query_and_failures_propagate replay_db replay)
           (fresh [raise (DriverError "unreachable"); ok []])).
Defined.

(** C9 as the document words it fails for the kind it calls ErrorCode: the
    label is not in the table, so the traversal sends no query at all, and
    what it raises is its own [ValueError], not the exception the store
    would have raised. *)
Lemma C9_ErrorCode_sends_no_query :
  In "ErrorCode" documented_kinds
  /\ sent (snd (get_entity_neighbors replay "ErrorCode" "E24"
                  (fresh [raise (DriverError "unreachable")]))) = []
  /\ graph (snd (get_entity_neighbors replay "ErrorCode" "E24"
                   (fresh [raise (DriverError "unreachable")])))
     = [raise (DriverError "unreachable")]
  /\ fst (get_entity_neighbors replay "ErrorCode" "E24"
            (fresh [raise (DriverError "unreachable")]))
     = raise (ValueError "Unknown label: ErrorCode").
Proof.
  split; [right; left; reflexivity|].
  repeat split.
Qed.

Example unreachable_store_is_not_asked_again :
  possible_actions_list replay
    (fresh [raise (DriverError "unreachable"); ok []])
  = (raise (DriverError "unreachable"),
     {| graph := [ok []]; sent := [(actions_query, [])] |}).
Proof. reflexivity. Qed.

(** * Further properties of the code *)

(** ** The mapping of [get_neighbors] as a whole *)

Lemma existsb_lookup {V} (d : kdict V) (k : value) :
  existsb (fun k' => key_eqb k' k) (map fst d)
  = match lookup d k with Some _ => true | None => false end.
Proof.
  induction d as [|[k' v] d IH]; simpl; [reflexivity|].
  destruct (key_eqb k' k); [reflexivity|exact IH].
Qed.

Lemma concat_upsert {V} (d : kdict (list V)) (k : value) (x : V) :
  hashable k ->
  Permutation (concat (map snd (upsert d k x))) (concat (map snd d) ++ [x]).
Proof.
  intros Hk. unfold upsert.
  induction d as [|[k' l] d IH]; simpl.
  - rewrite key_eqb_refl by assumption. reflexivity.
  - destruct (key_eqb k' k) eqn:E; simpl; rewrite E; simpl.
    + rewrite <- !app_assoc. apply Permutation_app_head.
      simpl. apply Permutation_cons_append.
    + rewrite <- app_assoc. now apply Permutation_app_head.
Qed.

Lemma for_each_keys_and_contents (rows : list row) :
  forall d d' : neighbors_map,
    for_each add_neighbor rows d = ok d' ->
    map fst d' = first_seen (map fst d) (map rel_type_of rows)
    /\ Permutation (concat (map snd d'))
                   (concat (map snd d) ++ map descriptor_of rows).
Proof.
  induction rows as [|r rows IH]; intros d d'; simpl.
  - intros [= <-]. split; [reflexivity|]. now rewrite app_nil_r.
  - destruct (add_neighbor d r) as [e|d1] eqn:E; [discriminate|].
    simpl. intros H.
    apply add_neighbor_inv in E. destruct E as [Hk ->].
    destruct (IH _ _ H) as [Hkeys Hperm].
    split.
    + rewrite Hkeys, keys_upsert, existsb_lookup by assumption.
      now destruct (lookup d (rel_type_of r)).
    + rewrite Hperm, concat_upsert by assumption.
      now rewrite <- app_assoc.
Qed.

Section Traversal.

Context {db : Type}.
Variable run : string -> params -> db -> result (list row) * db.
Variables (label identifier : string) (w : world db) (rows : list row).
Hypothesis known : In label known_labels.
Hypothesis answer :
  fst (run (neighbors_query label (dict_get property_keys label))
           [("identifier", VStr identifier)] (graph w)) = ok rows.

Lemma get_entity_neighbors_loop :
  fst (get_entity_neighbors run label identifier w)
  = for_each add_neighbor rows [].
Proof.
  unfold get_entity_neighbors.
  rewrite get_neighbors_known by assumption.
  cbv zeta. cbn [fst]. rewrite answer. reflexivity.
Qed.

(** X1.  The mapping returned is the rows grouped by relationship type,
    whatever the types are and however many: its keys are pairwise
    different, a type has a group exactly when some row has it, and the group
    is the descriptors of the rows of that type in the order of the result,
    repeated rows included. *)
Theorem X1_groups_are_the_rows_by_type (m : neighbors_map) :
  fst (get_entity_neighbors run label identifier w) = ok m ->
  NoDup (map fst m)
  /\ (forall k,
         lookup m k = extend None (map descriptor_of (rows_under k rows)))
  /\ forall k l,
       In (k, l) m ->
       l = map descriptor_of (rows_under k rows)
       /\ length l = length (rows_under k rows).
Proof.
  intros Hm.
  destruct (get_neighbors_groups run label identifier w rows m known answer Hm)
    as (Hp & _ & Hlook).
  split; [apply Hp|]. split; [exact Hlook|].
  intros k l Hkl.
  pose proof (lookup_of_in m k l Hp Hkl) as Hk.
  rewrite Hlook in Hk. apply extend_None_inv in Hk. destruct Hk as [-> _].
  split; [reflexivity|apply length_map].
Qed.

(** X2.  The keys of the mapping come in the order in which the
    relationship types first appear in the rows. *)
Theorem X2_keys_in_order_of_first_appearance (m : neighbors_map) :
  fst (get_entity_neighbors run label identifier w) = ok m ->
  map fst m = first_seen [] (map rel_type_of rows).
Proof.
  rewrite get_entity_neighbors_loop. intros Hm.
  now apply for_each_keys_and_contents in Hm.
Qed.

(** X3.  No row is lost and none is counted twice: the groups of the
    mapping, taken together, are the descriptors of the rows up to order,
    and their lengths add up to the number of rows. *)
Theorem X3_every_row_in_one_group (m : neighbors_map) :
  fst (get_entity_neighbors run label identifier w) = ok m ->
  Permutation (concat (map snd m)) (map descriptor_of rows)
  /\ list_sum (map (fun kv => length (snd kv)) m) = length rows.
Proof.
  rewrite get_entity_neighbors_loop. intros Hm.
  apply for_each_keys_and_contents in Hm. destruct Hm as [_ Hperm].
  simpl in Hperm. split; [exact Hperm|].
  apply Permutation_length in Hperm.
  rewrite length_concat, map_map, length_map in Hperm. exact Hperm.
Qed.

End Traversal.

Lemma known_Symptom : In "Symptom" known_labels.
Proof. right; right; right; left; reflexivity. Defined.

Lemma X1_leaking_water :
  NoDup [VStr "INDICATES"; VStr "RESOLVED_BY"]
  /\ (forall k,
         lookup [ (VStr "INDICATES",
                   [descriptor_of door_seal_worn;
                    descriptor_of drain_hose_loose]);
                  (VStr "RESOLVED_BY", [descriptor_of replace_door_seal]) ] k
         = extend None (map descriptor_of (rows_under k leaking_water)))
  /\ forall k l,
       In (k, l)
          [ (VStr "INDICATES",
             [descriptor_of door_seal_worn; descriptor_of drain_hose_loose]);
            (VStr "RESOLVED_BY", [descriptor_of replace_door_seal]) ] ->
       l = map descriptor_of (rows_under k leaking_water)
       /\ length l = length (rows_under k leaking_water).
Proof.
  exact (X1_groups_are_the_rows_by_type replay "Symptom" "leaking water"
           (fresh [ok leaking_water]) leaking_water known_Symptom eq_refl
           [ (VStr "INDICATES",
              [descriptor_of door_seal_worn; descriptor_of drain_hose_loose]);
             (VStr "RESOLVED_BY", [descriptor_of replace_door_seal]) ]
           eq_refl).
Defined.

Lemma X2_leaking_water :
  [VStr "INDICATES"; VStr "RESOLVED_BY"]
  = first_seen [] (map rel_type_of leaking_water).
Proof.
  exact (X2_keys_in_order_of_first_appearance replay "Symptom"
           "leaking water" (fresh [ok leaking_water]) leaking_water
           known_Symptom eq_refl
           [ (VStr "INDICATES",
              [descriptor_of door_seal_worn; descriptor_of drain_hose_loose]);
             (VStr "RESOLVED_BY", [descriptor_of replace_door_seal]) ]
           eq_refl).
Defined.

Lemma X3_leaking_water :
  Permutation
    [descriptor_of door_seal_worn; descriptor_of drain_hose_loose;
     descriptor_of replace_door_seal]
    (map descriptor_of leaking_water)
  /\ list_sum [2; 1] = length leaking_water.
Proof.
  exact (X3_every_row_in_one_group replay "Symptom" "leaking water"
           (fresh [ok leaking_water]) leaking_water known_Symptom eq_refl
           [ (VStr "INDICATES",
              [descriptor_of door_seal_worn; descriptor_of drain_hose_loose]);
             (VStr "RESOLVED_BY", [descriptor_of replace_door_seal]) ]
           eq_refl).
Defined.

(** ** Rows that make the traversal raise *)

Lemma add_neighbor_row_error (d : neighbors_map) (r : row) :
  add_neighbor d r
  = match row_error r with
    | Some e => raise e
    | None => ok (upsert d (rel_type_of r) (descriptor_of r))
    end.
Proof.
  unfold add_neighbor, row_error, rel_type_of, descriptor_of, get, upsert.
  step_result.
  destruct (dict_get r "rel_type") as [t|]; [|reflexivity].
  destruct (hash t) as [e|[]]; [reflexivity|].
  destruct (dict_get r "node_labels"); [|reflexivity].
  destruct (dict_get r "node"); reflexivity.
Qed.

Lemma for_each_app {A S} (body : S -> A -> result S) (l1 l2 : list A)
  (acc : S) :
  for_each body (l1 ++ l2) acc
  = bind (for_each body l1 acc) (for_each body l2).
Proof.
  revert acc. induction l1 as [|a l1 IH]; intros acc; simpl; [reflexivity|].
  destruct (body acc a) as [e|s]; simpl; [reflexivity|apply IH].
Qed.

Lemma for_each_sound_rows (rows : list row) :
  Forall (fun r => row_error r = None) rows ->
  forall d, exists d', for_each add_neighbor rows d = ok d'.
Proof.
  induction 1 as [|r rows Hr _ IH]; intros d; simpl.
  - now exists d.
  - rewrite add_neighbor_row_error, Hr. apply IH.
Qed.

Lemma for_each_returns_iff (rows : list row) :
  forall d,
    (exists d', for_each add_neighbor rows d = ok d')
    <-> Forall (fun r => row_error r = None) rows.
Proof.
  intros d. split; [|intros H; now apply for_each_sound_rows].
  revert d. induction rows as [|r rows IH]; intros d [d' H];
    [constructor|].
  simpl in H. rewrite add_neighbor_row_error in H.
  destruct (row_error r) as [e|] eqn:E; [discriminate|].
  constructor; [assumption|].
  apply (IH (upsert d (rel_type_of r) (descriptor_of r))). now exists d'.
Qed.

(** X4.  The first row that lacks one of the three columns, or whose
    relationship type cannot be a key, decides the outcome of the
    traversal: the call raises that row's exception, and the groups built
    from the rows before it are not returned. *)
Theorem X4_first_unsound_row_raises :
  forall (db : Type) (run : string -> params -> db -> result (list row) * db)
         (label identifier : string) (w : world db)
         (before after : list row) (r : row) (e : exn),
    In label known_labels ->
    fst (run (neighbors_query label (dict_get property_keys label))
             [("identifier", VStr identifier)] (graph w))
    = ok (before ++ r :: after) ->
    Forall (fun r' => row_error r' = None) before ->
    row_error r = Some e ->
    fst (get_entity_neighbors run label identifier w) = raise e.
Proof.
  intros db run label identifier w before after r e Hl Hrows Hb Hr.
  rewrite (get_entity_neighbors_loop run label identifier w _ Hl Hrows).
  rewrite for_each_app.
  destruct (for_each_sound_rows before Hb []) as [d Hd].
  rewrite Hd. simpl. now rewrite add_neighbor_row_error, Hr.
Qed.

Lemma X4_row_without_node :
  fst (get_entity_neighbors replay "Symptom" "leaking water"
         (fresh [ok ([door_seal_worn] ++ pump_blocked_without_node
                       :: [replace_door_seal])]))
  = raise (KeyError "node").
Proof.
  apply (X4_first_unsound_row_raises replay_db replay "Symptom"
           "leaking water"
           (fresh [ok ([door_seal_worn] ++ pump_blocked_without_node
                         :: [replace_door_seal])])
           [door_seal_worn] [replace_door_seal] pump_blocked_without_node
           (KeyError "node") known_Symptom eq_refl).
  - repeat constructor.
  - reflexivity.
Defined.

(** X5.  For a label of the table and rows that the store did answer, the
    traversal returns a mapping exactly when every row has the three
    columns and a relationship type that can be a key ([None], an integer
    or a string); nothing else in a row can make it raise. *)
Theorem X5_returns_iff_rows_are_sound :
  forall (db : Type) (run : string -> params -> db -> result (list row) * db)
         (label identifier : string) (w : world db) (rows : list row),
    In label known_labels ->
    fst (run (neighbors_query label (dict_get property_keys label))
             [("identifier", VStr identifier)] (graph w)) = ok rows ->
    ((exists m, fst (get_entity_neighbors run label identifier w) = ok m)
     <-> Forall (fun r => row_error r = None) rows).
Proof.
  intros db run label identifier w rows Hl Hrows.
  rewrite (get_entity_neighbors_loop run label identifier w _ Hl Hrows).
  apply for_each_returns_iff.
Qed.

Lemma X5_leaking_water :
  (exists m,
      fst (get_entity_neighbors replay "Symptom" "leaking water"
             (fresh [ok leaking_water])) = ok m)
  <-> Forall (fun r => row_error r = None) leaking_water.
Proof.
  exact (X5_returns_iff_rows_are_sound replay_db replay "Symptom"
           "leaking water" (fresh [ok leaking_water]) leaking_water
           known_Symptom eq_refl).
Defined.

(** ** Rows that make an enumeration raise *)

Section FirstFailure.

Context {A B : Type}.
Variable f : A -> result B.

Lemma comprehension_first_failure (before after : list A) (r : A) (e : exn) :
  Forall (fun r' => exists b, f r' = ok b) before ->
  f r = raise e ->
  comprehension f (before ++ r :: after) = raise e.
Proof.
  intros Hb Hr.
  induction Hb as [|r' before [b Hb'] _ IH]; simpl.
  - now rewrite Hr.
  - now rewrite Hb', IH.
Qed.

Lemma comprehension_raise_inv (rows : list A) (e : exn) :
  comprehension f rows = raise e -> exists r, In r rows /\ f r = raise e.
Proof.
  induction rows as [|r rows IH]; simpl; [discriminate|].
  unfold bind, raise in *.
  destruct (f r) as [e'|b] eqn:Er.
  - intros [= ->]. exists r. split; [now left|assumption].
  - destruct (comprehension f rows) as [e'|bs]; [|discriminate].
    intros [= ->]. destruct (IH eq_refl) as (r' & Hin & Hr').
    exists r'. split; [now right|assumption].
Qed.

End FirstFailure.

Lemma for_each_raise_inv (rows : list row) (e : exn) :
  forall d,
    for_each add_neighbor rows d = raise e ->
    exists r, In r rows /\ row_error r = Some e.
Proof.
  induction rows as [|r rows IH]; intros d; simpl; [discriminate|].
  rewrite add_neighbor_row_error.
  destruct (row_error r) as [e'|] eqn:Er; simpl.
  - intros [= ->]. exists r. split; [now left|assumption].
  - intros H. destruct (IH _ H) as (r' & Hin & Hr').
    exists r'. split; [now right|assumption].
Qed.

Lemma enumeration_first_failure {db A}
  (run : string -> params -> db -> result (list row) * db)
  (q : string) (f : row -> result A) (w : world db)
  (before after : list row) (r : row) (e : exn) :
  fst (run q [] (graph w)) = ok (before ++ r :: after) ->
  Forall (fun r' => exists a, f r' = ok a) before ->
  f r = raise e ->
  fst (mbind (graph_query run q [])
             (fun rows => lift (comprehension f rows)) w) = raise e.
Proof.
  intros Hrows Hb Hr. rewrite query_then. cbn [fst]. rewrite Hrows.
  unfold bind, ok. now apply comprehension_first_failure.
Qed.

(** X6.  In each of the four enumerations the first row that does not
    convert decides the outcome: the call raises the exception of that row,
    and the records of the rows before it are not returned. *)
Theorem X6_first_bad_row_decides :
  forall (db : Type) (run : string -> params -> db -> result (list row) * db)
         (w : world db) (before after : list row) (r : row) (e : exn),
    (fst (run actions_query [] (graph w)) = ok (before ++ r :: after) ->
     Forall (fun r' => exists a, action_of_row r' = ok a) before ->
     action_of_row r = raise e ->
     fst (possible_actions_list run w) = raise e)
    /\ (fst (run error_codes_query [] (graph w)) = ok (before ++ r :: after) ->
        Forall (fun r' => exists a, ecode_of_row r' = ok a) before ->
        ecode_of_row r = raise e ->
        fst (possible_error_codes_list run w) = raise e)
    /\ (fst (run problem_scenarios_query [] (graph w))
        = ok (before ++ r :: after) ->
        Forall (fun r' => exists a, problem_scenario_of_row r' = ok a) before ->
        problem_scenario_of_row r = raise e ->
        fst (possible_scenarios_list run w) = raise e)
    /\ (fst (run symptoms_query [] (graph w)) = ok (before ++ r :: after) ->
        Forall (fun r' => exists a, symptom_of_row r' = ok a) before ->
        symptom_of_row r = raise e ->
        fst (possible_symptom_list run w) = raise e).
Proof.
  intros db run w before after r e.
  repeat split; apply enumeration_first_failure.
Qed.

(** An error code whose description is a number: the field is optional,
    but what it holds must be a string. *)
Lemma X6_description_is_a_number :
  fst (possible_error_codes_list replay
         (fresh [ok ([[("code", VStr "E24")]]
                     ++ [("code", VStr "E25"); ("description", VInt 25)]
                     :: [[("description", VStr "no code")]])]))
  = raise (ValidationError "ECode").
Proof.
  apply (proj1 (proj2
    (X6_first_bad_row_decides replay_db replay
       (fresh [ok ([[("code", VStr "E24")]]
                   ++ [("code", VStr "E25"); ("description", VInt 25)]
                   :: [[("description", VStr "no code")]])])
       [[("code", VStr "E24")]] [[("description", VStr "no code")]]
       [("code", VStr "E25"); ("description", VInt 25)]
       (ValidationError "ECode")))).
  - reflexivity.
  - repeat constructor.
    now exists {| ECode_code := "E24"; ECode_description := None |}.
  - reflexivity.
Defined.

(** ** The exceptions a call can raise *)

Lemma validate_str_raise (model : string) (v : value) (e : exn) :
  validate_str model v = raise e -> e = ValidationError model.
Proof. destruct v; simpl; now intros [= <-]. Qed.

Lemma action_of_row_raise (r : row) (e : exn) :
  action_of_row r = raise e ->
  e = KeyError "name" \/ e = ValidationError "Action".
Proof.
  unfold action_of_row, new_Action, getitem, bind, raise, ok.
  destruct (dict_get r "name") as [v|]; [|intros [= <-]; now left].
  destruct (validate_str "Action" v) as [e'|s] eqn:E; [|discriminate].
  intros [= <-]. right. now apply validate_str_raise in E.
Qed.

Lemma symptom_of_row_raise (r : row) (e : exn) :
  symptom_of_row r = raise e ->
  e = KeyError "name" \/ e = ValidationError "Symptom".
Proof.
  unfold symptom_of_row, new_Symptom, getitem, bind, raise, ok.
  destruct (dict_get r "name") as [v|]; [|intros [= <-]; now left].
  destruct (validate_str "Symptom" v) as [e'|s] eqn:E; [|discriminate].
  intros [= <-]. right. now apply validate_str_raise in E.
Qed.

Lemma problem_scenario_of_row_raise (r : row) (e : exn) :
  problem_scenario_of_row r = raise e ->
  e = KeyError "description" \/ e = ValidationError "ProblemScenario".
Proof.
  unfold problem_scenario_of_row, new_ProblemScenario, getitem, bind,
    raise, ok.
  destruct (dict_get r "description") as [v|]; [|intros [= <-]; now left].
  destruct (validate_str "ProblemScenario" v) as [e'|s] eqn:E;
    [|discriminate].
  intros [= <-]. right. now apply validate_str_raise in E.
Qed.

Lemma ecode_of_row_raise (r : row) (e : exn) :
  ecode_of_row r = raise e ->
  e = KeyError "code" \/ e = ValidationError "ECode".
Proof.
  unfold ecode_of_row, new_ECode, getitem, bind, raise, ok.
  destruct (dict_get r "code") as [v|]; [|intros [= <-]; now left].
  destruct (validate_str "ECode" v) as [e'|s] eqn:E.
  - intros [= <-]. right. now apply validate_str_raise in E.
  - destruct (get r "description"); simpl; try discriminate;
      intros [= <-]; now right.
Qed.

Lemma row_error_cases (r : row) (e : exn) :
  row_error r = Some e ->
  In e [ KeyError "rel_type"; KeyError "node_labels"; KeyError "node";
         TypeError "unhashable type: 'list'";
         TypeError "unhashable type: 'dict'" ].
Proof.
  unfold row_error.
  destruct (dict_get r "rel_type") as [t|];
    [|intros [= <-]; simpl; tauto].
  destruct t; simpl;
    try (intros [= <-]; tauto);
    (destruct (dict_get r "node_labels");
     [destruct (dict_get r "node"); [discriminate|]|]);
    intros [= <-]; tauto.
Qed.

Lemma enumeration_raise_inv {db A}
  (run : string -> params -> db -> result (list row) * db)
  (q : string) (f : row -> result A) (w : world db) (e : exn) :
  fst (mbind (graph_query run q [])
             (fun rows => lift (comprehension f rows)) w) = raise e ->
  fst (run q [] (graph w)) = raise e
  \/ exists rows r,
       fst (run q [] (graph w)) = ok rows /\ In r rows /\ f r = raise e.
Proof.
  rewrite query_then. cbn [fst].
  destruct (fst (run q [] (graph w))) as [e'|rows]; simpl.
  - intros [= ->]. now left.
  - intros H. right. apply comprehension_raise_inv in H.
    destruct H as (r & Hin & Hr). now exists rows, r.
Qed.

(** X7.  The exceptions of the enumerations.  When one of them raises, the
    exception is the one the store raised at its query, or else the store
    answered and the exception is the [KeyError] of the natural key's column
    or the [ValidationError] of the kind's model.  No other exception comes
    out. *)
Theorem X7_exceptions_of_enumerations :
  forall (db : Type) (run : string -> params -> db -> result (list row) * db)
         (w : world db) (e : exn),
    (fst (possible_actions_list run w) = raise e ->
     fst (run actions_query [] (graph w)) = raise e
     \/ e = KeyError "name" \/ e = ValidationError "Action")
    /\ (fst (possible_error_codes_list run w) = raise e ->
        fst (run error_codes_query [] (graph w)) = raise e
        \/ e = KeyError "code" \/ e = ValidationError "ECode")
    /\ (fst (possible_scenarios_list run w) = raise e ->
        fst (run problem_scenarios_query [] (graph w)) = raise e
        \/ e = KeyError "description"
        \/ e = ValidationError "ProblemScenario")
    /\ (fst (possible_symptom_list run w) = raise e ->
        fst (run symptoms_query [] (graph w)) = raise e
        \/ e = KeyError "name" \/ e = ValidationError "Symptom").
Proof.
  intros db run w e.
  repeat split; intros H; apply enumeration_raise_inv in H;
    (destruct H as [H|(rows & r & _ & _ & H)]; [now left|right]).
  - now apply action_of_row_raise in H.
  - now apply ecode_of_row_raise in H.
  - now apply problem_scenario_of_row_raise in H.
  - now apply symptom_of_row_raise in H.
Qed.

Lemma X7_null_name :
  fst (replay actions_query [] (graph (fresh [ok [[("name", VNone)]]])))
  = raise (ValidationError "Action")
  \/ ValidationError "Action" = KeyError "name"
  \/ ValidationError "Action" = ValidationError "Action".
Proof.
  exact (proj1
    (X7_exceptions_of_enumerations replay_db replay
       (fresh [ok [[("name", VNone)]]]) (ValidationError "Action"))
    eq_refl).
Defined.

(** X8.  The exceptions of the traversal.  When [get_entity_neighbors]
    raises, either the label is not in the table and the exception is the
    unknown-label [ValueError], or the label is in the table and the
    exception is the one the store raised at the query, or the store
    answered and the exception is that of one of its rows: a [KeyError] on
    one of the three columns, or the [TypeError] of a relationship type
    that is a list or a dictionary. *)
Theorem X8_exceptions_of_get_entity_neighbors :
  forall (db : Type) (run : string -> params -> db -> result (list row) * db)
         (label identifier : string) (w : world db) (e : exn),
    fst (get_entity_neighbors run label identifier w) = raise e ->
    (~ In label known_labels
     /\ e = ValueError ("Unknown label: " ++ label))
    \/ (In label known_labels
        /\ (fst (run (neighbors_query label (dict_get property_keys label))
                     [("identifier", VStr identifier)] (graph w)) = raise e
            \/ In e [ KeyError "rel_type"; KeyError "node_labels";
                      KeyError "node";
                      TypeError "unhashable type: 'list'";
                      TypeError "unhashable type: 'dict'" ])).
Proof.
  intros db run label identifier w e.
  unfold get_entity_neighbors.
  destruct (existsb (String.eqb label) known_labels) eqn:E.
  - apply known_label_reflect in E.
    rewrite get_neighbors_known by assumption. cbv zeta. cbn [fst].
    intros H. right. split; [assumption|].
    destruct (fst (run _ _ (graph w))) as [e'|rows]; simpl in H.
    + injection H as ->. now left.
    + right. apply for_each_raise_inv in H.
      destruct H as (r & _ & Hr). now apply row_error_cases in Hr.
  - assert (Hl : ~ In label known_labels).
    { intros H. apply known_label_reflect in H. congruence. }
    rewrite get_neighbors_unknown by assumption. cbn [fst].
    intros [= <-]. left. now split.
Qed.

Lemma X8_row_without_node :
  (~ In "Symptom" known_labels
   /\ KeyError "node" = ValueError ("Unknown label: " ++ "Symptom"))
  \/ (In "Symptom" known_labels
      /\ (fst (replay
                 (neighbors_query "Symptom" (dict_get property_keys "Symptom"))
                 [("identifier", VStr "leaking water")]
                 (graph (fresh [ok [pump_blocked_without_node]])))
          = raise (KeyError "node")
          \/ In (KeyError "node")
                [ KeyError "rel_type"; KeyError "node_labels";
                  KeyError "node";
                  TypeError "unhashable type: 'list'";
                  TypeError "unhashable type: 'dict'" ])).
Proof.
  exact (X8_exceptions_of_get_entity_neighbors replay_db replay "Symptom"
           "leaking water" (fresh [ok [pump_blocked_without_node]])
           (KeyError "node") eq_refl).
Defined.

(** ** Calls one after the other *)

Lemma traversal_texts_allowed (label : string) :
  incl (traversal_texts label) neighbors_texts.
Proof.
  unfold traversal_texts.
  destruct (existsb (String.eqb label) known_labels) eqn:E; [|intros q []].
  apply known_label_reflect, known_label_cases in E.
  intros q [<-|[]].
  destruct E as [-> | [-> | [-> | ->]]].
  - left. reflexivity.
  - right; left. reflexivity.
  - right; right; left. reflexivity.
  - right; right; right; left. reflexivity.
Qed.

Lemma traversal_texts_length (label : string) :
  length (traversal_texts label) <= 1.
Proof.
  unfold traversal_texts.
  destruct (existsb (String.eqb label) known_labels); simpl; lia.
Qed.

Lemma queries_of_allowed (c : tool_call) :
  incl (map fst (queries_of c)) all_texts /\ length (queries_of c) <= 1.
Proof.
  destruct c; simpl queries_of.
  - split; [intros q [<-|[]]; simpl; tauto|simpl; lia].
  - split; [intros q [<-|[]]; simpl; tauto|simpl; lia].
  - split; [intros q [<-|[]]; simpl; tauto|simpl; lia].
  - split; [intros q [<-|[]]; simpl; tauto|simpl; lia].
  - rewrite map_map, map_id, length_map. split.
    + intros q Hq. apply traversal_texts_allowed in Hq.
      unfold all_texts. apply in_or_app. now right.
    + apply traversal_texts_length.
  - split; [intros q []|simpl; lia].
Qed.

Section CallsFacts.

Context {db : Type}.
Variable run : string -> params -> db -> result (list row) * db.

Lemma snd_returning {A} (tag : A -> tool_value) (c : M db A) (w : world db) :
  snd (returning tag c w) = snd (c w).
Proof.
  unfold returning, mbind, lift.
  destruct (c w) as [[e|a] w']; reflexivity.
Qed.

Lemma sent_get_neighbors (label identifier : string) (w : world db) :
  sent (snd (get_neighbors run label identifier w))
  = sent w ++ map (fun q => (q, [("identifier", VStr identifier)]))
                  (traversal_texts label).
Proof.
  unfold traversal_texts.
  destruct (existsb (String.eqb label) known_labels) eqn:E.
  - apply known_label_reflect in E.
    rewrite get_neighbors_known by assumption. reflexivity.
  - rewrite get_neighbors_unknown.
    + simpl. now rewrite app_nil_r.
    + intros H. apply known_label_reflect in H. congruence.
Qed.

Lemma sent_invoke (c : tool_call) (w : world db) :
  sent (snd (invoke run c w)) = sent w ++ queries_of c.
Proof.
  destruct c; simpl invoke; rewrite snd_returning;
    unfold possible_actions_list, possible_error_codes_list,
      possible_scenarios_list, possible_symptom_list, get_entity_neighbors,
      get_all_actions, get_all_error_codes, get_all_problem_scenarios,
      get_all_symptoms, propose_correct_action;
    rewrite ?query_then; try reflexivity.
  - apply sent_get_neighbors.
  - simpl. now rewrite app_nil_r.
Qed.

(** X9.  Whatever calls of the six tools are made, in whatever order, and
    whatever the store answers or raises in between: what has been sent to
    the store afterwards is what the calls name, call by call.  That is one
    fixed text for an enumeration, the text of its label for a traversal
    whose label is in the table, and nothing for a traversal of another
    label or for a proposal.  So every text sent is one of eight fixed
    texts, there is at most one query for a call, and there is one outcome
    for every call. *)
Theorem X9_calls_send_what_they_name :
  forall (cs : list tool_call) (w : world db),
    sent (snd (calls run cs w)) = sent w ++ flat_map queries_of cs
    /\ incl (map fst (flat_map queries_of cs)) all_texts
    /\ length (flat_map queries_of cs) <= length cs
    /\ length (fst (calls run cs w)) = length cs.
Proof.
  induction cs as [|c cs IH]; intros w; simpl.
  - rewrite app_nil_r. repeat split; [intros q []|lia].
  - pose proof (sent_invoke c w) as Hc.
    destruct (invoke run c w) as [r w1].
    destruct (IH w1) as (Hs & Hi & Hl & Hn).
    destruct (calls run cs w1) as [rs w2].
    destruct (queries_of_allowed c) as [Hci Hcl].
    simpl in *.
    split; [|split; [|split]].
    + now rewrite Hs, Hc, app_assoc.
    + rewrite map_app. now apply incl_app.
    + rewrite length_app. lia.
    + now rewrite Hn.
Qed.

Lemma graph_invoke (c : tool_call) (w : world db) :
  graph (snd (invoke run c w)) = store_after run (queries_of c) (graph w).
Proof.
  destruct c; simpl invoke; rewrite snd_returning;
    unfold possible_actions_list, possible_error_codes_list,
      possible_scenarios_list, possible_symptom_list, get_entity_neighbors,
      get_all_actions, get_all_error_codes, get_all_problem_scenarios,
      get_all_symptoms, propose_correct_action;
    rewrite ?query_then; try reflexivity.
  unfold queries_of, traversal_texts.
  destruct (existsb (String.eqb label) known_labels) eqn:E.
  - apply known_label_reflect in E.
    rewrite get_neighbors_known by assumption. reflexivity.
  - rewrite get_neighbors_unknown; [reflexivity|].
    intros H. apply known_label_reflect in H. congruence.
Qed.

(** X10.  After any calls of the six tools the store is in the state that
    the queries the calls name, run once each and in order, leave it in: a
    call that raises, a traversal of an unknown label and a proposal do not
    touch the store beyond that, and no query is run a second time. *)
Theorem X10_store_sees_the_named_queries_only :
  forall (cs : list tool_call) (w : world db),
    graph (snd (calls run cs w))
    = store_after run (flat_map queries_of cs) (graph w).
Proof.
  induction cs as [|c cs IH]; intros w; simpl; [reflexivity|].
  pose proof (graph_invoke c w) as Hc.
  destruct (invoke run c w) as [r w1].
  specialize (IH w1).
  destruct (calls run cs w1) as [rs w2].
  simpl in *. unfold store_after in *.
  now rewrite fold_left_app, <- Hc.
Qed.

End CallsFacts.

Example calls_on_an_unreachable_store :
  calls replay
    [ Call_possible_symptom_list;
      Call_get_entity_neighbors "ErrorCode" "E24";
      Call_get_entity_neighbors "ECode" "E24";
      Call_propose_correct_action "replace_motor" ]
    (fresh [raise (DriverError "unreachable")])
  = ( [ raise (DriverError "unreachable");
        raise (ValueError "Unknown label: ErrorCode");
        ok (Neighbors []);
        ok (Proposal {| Action_name := "replace_motor" |}) ],
      {| graph := [];
         sent := [ (symptoms_query, []);
                   (neighbors_query "ECode" (Some "code"),
                    [("identifier", VStr "E24")]) ] |} ).
Proof. reflexivity. Qed.
